(** * Celesys AI service worker (sw.js): cache policy engine

    A shallow embedding of the three lifecycle handlers of [src/sw.js]
    (install, activate, fetch) over an explicit model of the two host
    interfaces the worker consumes: the Cache Storage API and the network.

    Promises are modelled as state-passing computations that settle either
    fulfilled or rejected.  A promise whose result the handler neither returns
    nor passes to [event.waitUntil] / [event.respondWith] is run under
    [detach]: its effects still reach the store, but every operation it
    performs is recorded as not awaited by the triggering event. *)

From Stdlib Require Import String ZArith List Bool.
From stdpp Require Import base gmap strings list.

Local Open Scope string_scope.
Local Open Scope Z_scope.

(** ** Requests, responses and URLs *)

(** The parsed form of a request URL, as [new URL(event.request.url)] exposes
    it.  The host hands the worker normalised absolute http(s) URLs; two
    requests address the same cache entry when their URLs agree. *)
Record URL := mkURL {
  origin : string;
  pathname : string;
  search : string
}.

Record Request := mkRequest {
  method : string;
  url : URL;
  mode : string
}.

Record Response := mkResponse {
  status : Z;
  body : string
}.

#[global] Instance URL_eq_dec : EqDecision URL.
Proof. solve_decision. Defined.

#[global] Instance URL_countable : Countable URL.
Proof.
  refine (inj_countable' (fun u => (origin u, pathname u, search u))
                         (fun t => mkURL t.1.1 t.1.2 t.2) _).
  by intros [].
Defined.

(** ** Constants of the worker (sw.js lines 2-8) *)

Definition CACHE_NAME : string := "celesys-ai-v2".

Definition STATIC_ASSETS : list string :=
  [ "/"; "/manifest.json"; "/icons/icon-192.png"; "/icons/icon-512.png" ].

(** ** The host: cache storage, network, trace of operations *)

(** One cache: entries keyed by request URL; each entry keeps the request it
    was stored under together with the response snapshot. *)
Abbreviation Cache := (gmap URL (Request * Response)).

(** Operations the worker asks of its host. *)
Inductive Op :=
  | NetFetch (r : Request)
  | CachesOpen (name : string)
  | CachesMatch (u : URL)
  | CachesKeys
  | CachesDelete (name : string)
  | CachePut (name : string) (r : Request) (resp : Response)
  | CacheAddAll (name : string) (paths : list string)
  | ConsoleWarn.

(** [awaited] tells whether the operation belongs to the promise chain the
    triggering event was told to wait for. *)
Record Effect := mkEffect {
  op : Op;
  awaited : bool
}.

(** The cache storage keeps its caches in creation order: [caches.match]
    and [caches.keys] walk them in that order. *)
Record Host := mkHost {
  caches : list (string * Cache);
  trace : list Effect;
  skip_waiting : bool;
  clients_claimed : bool
}.

(** What a handler run can observe of its surroundings: the origin the worker
    is registered on (string URLs such as '/' resolve against it), the
    outcome of each network fetch, [None] being a network-level failure, and
    whether the cache store goes through with the write of a given pair.
    The last stands for everything about the store that lies outside this
    model: it refuses a response that carries [Vary: *] and a request whose
    URL is not http(s), and a write nothing waits for may never run to
    completion. *)
Record Env := mkEnv {
  scope_origin : string;
  network : Request -> option Response;
  store_accepts : Request -> Response -> bool
}.

Definition set_caches (cs : list (string * Cache)) (h : Host) : Host :=
  mkHost cs (trace h) (skip_waiting h) (clients_claimed h).

Definition set_trace (t : list Effect) (h : Host) : Host :=
  mkHost (caches h) t (skip_waiting h) (clients_claimed h).

Definition log (o : Op) (h : Host) : Host :=
  set_trace (trace h ++ [mkEffect o true]) h.

(** ** Promises *)

Inductive Settled (A : Type) :=
  | Fulfilled (a : A)
  | Rejected.
Arguments Fulfilled {A} a.
Arguments Rejected {A}.

Definition Promise (A : Type) : Type := Env -> Host -> Settled A * Host.

Definition resolve {A} (a : A) : Promise A :=
  fun _ h => (Fulfilled a, h).

(** [p.then(f)] *)
Definition then_ {A B} (p : Promise A) (f : A -> Promise B) : Promise B :=
  fun e h =>
    match p e h with
    | (Fulfilled a, h') => f a e h'
    | (Rejected, h') => (Rejected, h')
    end.

(** [p.catch(() => q)] *)
Definition catch {A} (p : Promise A) (q : Promise A) : Promise A :=
  fun e h =>
    match p e h with
    | (Fulfilled a, h') => (Fulfilled a, h')
    | (Rejected, h') => q e h'
    end.

Definition unawait (x : Effect) : Effect := mkEffect (op x) false.

(** A promise that is started and then dropped: nothing waits for it and a
    rejection of it is lost.  Its operations are still carried out, at a
    time of their own: the host a run returns is the host once everything
    the handler started has run its course, and the [awaited] flag tells
    which operations the event waited for.  A dropped write that never
    completes is a write the store did not accept ([store_accepts]). *)
Definition detach {A} (p : Promise A) : Promise unit :=
  fun e h =>
    let h' := (p e (set_trace [] h)).2 in
    (Fulfilled tt, set_trace (trace h ++ map unawait (trace h')) h').

Notation "x <- p ;; k" := (then_ p (fun x => k))
  (at level 200, p at level 99, right associativity, only parsing).

(** [Promise.all]: every member runs; the result is rejected as soon as one
    member is. *)
Fixpoint promise_all {A} (ps : list (Promise A)) : Promise (list A) :=
  match ps with
  | [] => resolve []
  | p :: ps' =>
      fun e h =>
        let '(r, h1) := p e h in
        let '(rs, h2) := promise_all ps' e h1 in
        match r, rs with
        | Fulfilled a, Fulfilled l => (Fulfilled (a :: l), h2)
        | _, _ => (Rejected, h2)
        end
  end.

(** ** Cache Storage API *)

Definition has_cache (name : string) (cs : list (string * Cache)) : bool :=
  existsb (fun p => String.eqb p.1 name) cs.

(** The cache a name denotes (the first one created under it). *)
Fixpoint get_cache (name : string) (cs : list (string * Cache)) : option Cache :=
  match cs with
  | [] => None
  | (n, c) :: cs' => if String.eqb n name then Some c else get_cache name cs'
  end.

Definition update_cache (name : string) (f : Cache -> Cache)
    (cs : list (string * Cache)) : list (string * Cache) :=
  map (fun p => if String.eqb p.1 name then (p.1, f p.2) else p) cs.

Definition remove_cache (name : string) (cs : list (string * Cache))
    : list (string * Cache) :=
  List.filter (fun p => negb (String.eqb p.1 name)) cs.

(** [cache.match(r)] on one cache: only GET requests match, and they match
    by URL.  Requests and responses carry no header fields here, so the
    store's matching on [Vary] is outside the model. *)
Definition cache_lookup (r : Request) (c : Cache) : option Response :=
  if String.eqb (method r) "GET" then snd <$> c !! url r else None.

(** [caches.match(r)]: the first cache, in creation order, with a match. *)
Fixpoint storage_match (r : Request) (cs : list (string * Cache))
    : option Response :=
  match cs with
  | [] => None
  | (_, c) :: cs' =>
      match cache_lookup r c with
      | Some resp => Some resp
      | None => storage_match r cs'
      end
  end.

(** A request built from a string of the worker's own code, such as '/' or a
    manifest path: a GET for that path on the worker's origin. *)
Definition request_of_path (e : Env) (path : string) : Request :=
  mkRequest "GET" (mkURL (scope_origin e) path "") "cors".

Definition ensure_cache (name : string) (cs : list (string * Cache))
    : list (string * Cache) :=
  if has_cache name cs then cs else (cs ++ [(name, ∅)])%list.

(** [caches.open(name)]: creates the cache when absent; the handle the
    worker gets back is modelled by the cache's name.  The cache storage is
    taken to be available: [caches.open], [caches.match], [caches.keys] and
    [caches.delete] always fulfil. *)
Definition caches_open (name : string) : Promise string :=
  fun _ h =>
    let h1 := log (CachesOpen name) h in
    (Fulfilled name, set_caches (ensure_cache name (caches h1)) h1).

Definition caches_match (r : Request) : Promise (option Response) :=
  fun _ h =>
    let h1 := log (CachesMatch (url r)) h in
    (Fulfilled (storage_match r (caches h1)), h1).

Definition caches_match_path (path : string) : Promise (option Response) :=
  fun e => caches_match (request_of_path e path) e.

Definition caches_keys : Promise (list string) :=
  fun _ h =>
    let h1 := log CachesKeys h in
    (Fulfilled (map fst (caches h1)), h1).

Definition caches_delete (name : string) : Promise bool :=
  fun _ h =>
    let h1 := log (CachesDelete name) h in
    (Fulfilled (has_cache name (caches h1)),
     set_caches (remove_cache name (caches h1)) h1).

(** [cache.put(r, resp)].  As the Cache interface of the Service Workers
    specification lays down, the store refuses (the promise rejects with a
    TypeError) a request that is not a GET and a partial-content response
    (status 206, "Partial response is unsupported"); its other grounds for
    not storing a pair are those of [store_accepts].  Otherwise the entry
    for the request's URL is replaced. *)
Definition put_accepts (e : Env) (r : Request) (resp : Response) : bool :=
  String.eqb (method r) "GET" && negb (status resp =? 206)
  && store_accepts e r resp.

Definition cache_put (name : string) (r : Request) (resp : Response)
    : Promise unit :=
  fun e h =>
    let h1 := log (CachePut name r resp) h in
    if put_accepts e r resp then
      (Fulfilled tt,
       set_caches (update_cache name (insert (url r) (r, resp)) (caches h1)) h1)
    else (Rejected, h1).

(** [fetch(r)] *)
Definition fetch (r : Request) : Promise Response :=
  fun e h =>
    let h1 := log (NetFetch r) h in
    match network e r with
    | Some resp => (Fulfilled resp, h1)
    | None => (Rejected, h1)
    end.

(** A response [cache.addAll] is willing to store for a request: status in
    200..299 and not 206, and a pair the store accepts. *)
Definition addAll_accepts (e : Env) (r : Request) (resp : Response) : bool :=
  (200 <=? status resp) && (status resp <=? 299) && negb (status resp =? 206)
  && store_accepts e r resp.

(** The responses of a batch, when every one of them arrived and is
    acceptable. *)
Fixpoint fetch_batch (e : Env) (rs : list Request)
    : option (list (Request * Response)) :=
  match rs with
  | [] => Some []
  | r :: rs' =>
      match network e r with
      | Some resp =>
          if addAll_accepts e r resp
          then option_map (cons (r, resp)) (fetch_batch e rs')
          else None
      | None => None
      end
  end.

Definition insert_all (es : list (Request * Response)) (c : Cache) : Cache :=
  fold_left (fun acc p => <[url p.1 := p]> acc) es c.

(** [cache.addAll(paths)].  As the Cache interface lays down, all requests
    are fetched and the batch is written in one go, and only when every
    fetch produced an acceptable response; otherwise the promise rejects
    with a TypeError and the cache is left as it was. *)
Definition cache_addAll (name : string) (paths : list string) : Promise unit :=
  fun e h =>
    let rs := map (request_of_path e) paths in
    let h1 := log (CacheAddAll name paths) h in
    let h2 := fold_left (fun acc r => log (NetFetch r) acc) rs h1 in
    match fetch_batch e rs with
    | Some es =>
        (Fulfilled tt,
         set_caches (update_cache name (insert_all es) (caches h2)) h2)
    | None => (Rejected, h2)
    end.

Definition console_warn : Promise unit :=
  fun _ h => (Fulfilled tt, log ConsoleWarn h).

(** [self.skipWaiting()] and [self.clients.claim()] *)
Definition skipWaiting (h : Host) : Host :=
  mkHost (caches h) (trace h) true (clients_claimed h).

Definition clients_claim (h : Host) : Host :=
  mkHost (caches h) (trace h) (skip_waiting h) true.

(** ** The handlers *)

(** Install (sw.js lines 11-20).  The result is the settlement of the promise
    given to [event.waitUntil]: fulfilled means the install succeeded. *)
Definition on_install : Env -> Host -> Settled unit * Host :=
  fun e h =>
    let '(r, h1) :=
      (cache <- caches_open CACHE_NAME ;;
       catch (cache_addAll cache STATIC_ASSETS) console_warn) e h in
    (r, skipWaiting h1).

(** Activate (sw.js lines 23-30). *)
Definition on_activate : Env -> Host -> Settled (list bool) * Host :=
  fun e h =>
    let '(r, h1) :=
      (keys <- caches_keys ;;
       promise_all
         (map caches_delete
            (List.filter (fun k => negb (String.eqb k CACHE_NAME)) keys))) e h in
    (r, clients_claim h1).

(** What the fetch handler leaves the host with: either it returned without
    calling [event.respondWith] (the host then performs the request itself),
    or it handed over a promise, of which we keep the settlement.  A response
    promise that fulfils with [None] (JavaScript's undefined) or rejects makes
    the host fail the request. *)
Inductive FetchOutcome :=
  | PassThrough
  | RespondWith (s : Settled (option Response)).

Definition respondWith (p : Promise (option Response))
    : Env -> Host -> FetchOutcome * Host :=
  fun e h => let '(s, h') := p e h in (RespondWith s, h').

(** What the host is left to do for the requester: perform the request
    itself, go on with the response it was handed, or fail the request.
    (A response handed over may still be turned down further on, as a
    browser does with a redirected response for a navigation.) *)
Inductive Delivery :=
  | FromNetwork
  | Delivered (r : Response)
  | RequestFails.

Definition delivery (o : FetchOutcome) : Delivery :=
  match o with
  | PassThrough => FromNetwork
  | RespondWith (Fulfilled (Some r)) => Delivered r
  | RespondWith _ => RequestFails
  end.

(** The cache refresh both strategies start on a network response
    (sw.js lines 48 and 61): the promise chain is neither returned nor handed
    to the event. *)
Definition refresh (req : Request) (response : Response) : Promise unit :=
  detach (cache <- caches_open CACHE_NAME ;; cache_put cache req response).

(** Network first, falling back to the cache (sw.js lines 45-51). *)
Definition network_first (req : Request) : Promise (option Response) :=
  catch
    (response <- fetch req ;;
     _ <- refresh req response ;;
     resolve (Some response))
    (r <- caches_match req ;;
     match r with
     | Some x => resolve (Some x)
     | None => caches_match_path "/"
     end).

(** Stale while revalidate (sw.js lines 58-65).  [fetched] is started in
    either case; [cached || fetched] waits for it only on a cache miss. *)
Definition stale_while_revalidate (req : Request) : Promise (option Response) :=
  cached <- caches_match req ;;
  let fetched :=
    catch
      (response <- fetch req ;;
       _ <- refresh req response ;;
       resolve (Some response))
      (resolve cached) in
  match cached with
  | Some c => _ <- detach fetched ;; resolve (Some c)
  | None => fetched
  end.

Definition is_api (req : Request) : bool :=
  String.prefix "/api/" (pathname (url req)).

(** Fetch (sw.js lines 33-67). *)
Definition on_fetch (req : Request) : Env -> Host -> FetchOutcome * Host :=
  fun e h =>
    if negb (String.eqb (method req) "GET") then (PassThrough, h)
    else if is_api req then (PassThrough, h)
    else if String.eqb (mode req) "navigate"
         then respondWith (network_first req) e h
         else respondWith (stale_while_revalidate req) e h.

(** The cache the worker writes to. *)
Definition named_cache (h : Host) : option Cache :=
  get_cache CACHE_NAME (caches h).

(** The invariant of the named cache: every entry sits under the URL of the
    request it was stored for, and that request is a GET outside /api/. *)
Definition entry_ok (k : URL) (p : Request * Response) : Prop :=
  url p.1 = k /\ method p.1 = "GET" /\ is_api p.1 = false.

Definition storage_ok (cs : list (string * Cache)) : Prop :=
  forall c, In (CACHE_NAME, c) cs -> map_Forall entry_ok c.

Definition named_cache_ok (h : Host) : Prop := storage_ok (caches h).

(** ** Lifecycle: the states the worker can bring its host to *)

Inductive Event :=
  | InstallEvent
  | ActivateEvent
  | FetchEvent (req : Request).

Definition step (e : Env) (ev : Event) (h : Host) : Host :=
  match ev with
  | InstallEvent => (on_install e h).2
  | ActivateEvent => (on_activate e h).2
  | FetchEvent req => (on_fetch req e h).2
  end.

(** A host the worker has never run on. *)
Definition initial_host : Host := mkHost [] [] false false.

(** [reachable o h0 h]: on a worker registered at [o], some sequence of
    lifecycle events leads from [h0] to [h]; every event meets its own network
    and store conditions. *)
Inductive reachable (o : string) (h0 : Host) : Host -> Prop :=
  | reachable_start : reachable o h0 h0
  | reachable_step net acc ev h :
      reachable o h0 h -> reachable o h0 (step (mkEnv o net acc) ev h).

(** ** Auxiliary descriptions used in the statements *)

(** The storage after the cache refresh for [req] and [resp]. *)
Definition after_refresh (e : Env) (req : Request) (resp : Response)
    (cs : list (string * Cache)) : list (string * Cache) :=
  if put_accepts e req resp
  then update_cache CACHE_NAME (insert (url req) (req, resp))
         (ensure_cache CACHE_NAME cs)
  else ensure_cache CACHE_NAME cs.

Definition refresh_effects (req : Request) (resp : Response) : list Effect :=
  [ mkEffect (CachesOpen CACHE_NAME) false;
    mkEffect (CachePut CACHE_NAME req resp) false ].

(** The requests [cache.addAll(STATIC_ASSETS)] issues. *)
Definition manifest_requests (e : Env) : list Request :=
  map (request_of_path e) STATIC_ASSETS.

(** Sample surroundings: an origin, a store that accepts every pair, a
    network that answers 200 to everything, one that is down, one that loses
    '/manifest.json' only, and one that answers with a fixed status. *)
Definition sample_origin : string := "https://celesys.example".

Definition accept_all : Request -> Response -> bool :=
  fun _ _ => true.

Definition net_up : Request -> option Response :=
  fun r => Some (mkResponse 200 (pathname (url r))).

Definition net_down : Request -> option Response :=
  fun _ => None.

Definition net_without_manifest : Request -> option Response :=
  fun r => if String.eqb (pathname (url r)) "/manifest.json" then None
           else Some (mkResponse 200 (pathname (url r))).

Definition net_status (code : Z) : Request -> option Response :=
  fun r => Some (mkResponse code "fresh").

Definition navigation (path : string) : Request :=
  mkRequest "GET" (mkURL sample_origin path "") "navigate".

Definition subresource (path : string) : Request :=
  mkRequest "GET" (mkURL sample_origin path "") "no-cors".

Definition report_post : Request :=
  mkRequest "POST" (mkURL sample_origin "/api/generate-report" "") "cors".

Definition api_get : Request :=
  mkRequest "GET" (mkURL sample_origin "/api/status" "") "cors".

(** The host right after a successful first install. *)
Definition installed : Host :=
  (on_install (mkEnv sample_origin net_up accept_all) initial_host).2.

(** A storage holding two generations of the worker's cache. *)
Definition two_generations : Host :=
  mkHost [("celesys-ai-v1", ∅); ("celesys-ai-v2", ∅)] [] true false.

(** A storage in which every cache bears the current name: what is left once
    the older generations are gone. *)
Definition only_current (cs : list (string * Cache)) : Prop :=
  forall n c, In (n, c) cs -> n = CACHE_NAME.

(** A storage where a cache of an older generation, created first, holds
    a response for '/dashboard'. *)
Definition with_old_generation : Host :=
  mkHost [ ("celesys-ai-v1",
            {[ url (navigation "/dashboard") :=
                 (navigation "/dashboard", mkResponse 200 "old") ]});
           ("celesys-ai-v2", ∅) ] [] true true.

(** Closes an equation between two explicitly computed runs. *)
Ltac same_run :=
  unfold resolve, set_caches, set_trace, log; cbn;
  rewrite <- ?app_assoc; reflexivity.

(** * Properties *)

(** ** Bookkeeping lemmas *)

Lemma method_eqb_GET req : method req = "GET" -> String.eqb (method req) "GET" = true.
Proof. intros ->. reflexivity. Qed.

Lemma method_eqb_not_GET req :
  method req <> "GET" -> String.eqb (method req) "GET" = false.
Proof. intros H. by apply String.eqb_neq. Qed.

(** ** Cache storage lemmas *)

Lemma get_cache_app name cs cs' :
  get_cache name (cs ++ cs') =
  match get_cache name cs with Some c => Some c | None => get_cache name cs' end.
Proof.
  induction cs as [|[n c] cs IH]; [done|]. cbn.
  by destruct (String.eqb n name).
Qed.

Lemma has_cache_get name cs :
  has_cache name cs =
  match get_cache name cs with Some _ => true | None => false end.
Proof.
  induction cs as [|[n c] cs IH]; [done|]. cbn.
  by destruct (String.eqb n name).
Qed.

Lemma get_cache_ensure name cs :
  get_cache name (ensure_cache name cs) = Some (default ∅ (get_cache name cs)).
Proof.
  unfold ensure_cache. rewrite has_cache_get.
  destruct (get_cache name cs) as [c|] eqn:Hc; [done|].
  rewrite get_cache_app, Hc. cbn. by rewrite String.eqb_refl.
Qed.

Lemma get_cache_update name f cs :
  get_cache name (update_cache name f cs) = f <$> get_cache name cs.
Proof.
  induction cs as [|[n c] cs IH]; [done|]. cbn.
  destruct (String.eqb n name) eqn:E; cbn; rewrite E; [done|apply IH].
Qed.

(** ** What a run of each strategy leaves behind *)

Lemma refresh_run req resp e h :
  refresh req resp e h =
  (Fulfilled tt,
   mkHost (after_refresh e req resp (caches h))
          (trace h ++ refresh_effects req resp)
          (skip_waiting h) (clients_claimed h)).
Proof.
  unfold refresh, detach, then_, caches_open, cache_put, after_refresh.
  cbn. by destruct (put_accepts e req resp).
Qed.

Lemma fetch_refresh_online req r (q : Promise (option Response)) e h :
  network e req = Some r ->
  catch (response <- fetch req ;;
         _ <- refresh req response ;;
         resolve (Some response)) q e h =
  (Fulfilled (Some r),
   mkHost (after_refresh e req r (caches h))
          (trace h ++ mkEffect (NetFetch req) true :: refresh_effects req r)
          (skip_waiting h) (clients_claimed h)).
Proof.
  intros Hnet. unfold catch, then_ at 1, fetch.
  rewrite Hnet. unfold then_. rewrite refresh_run. same_run.
Qed.

Lemma fetch_refresh_offline req (q : Promise (option Response)) e h :
  network e req = None ->
  catch (response <- fetch req ;;
         _ <- refresh req response ;;
         resolve (Some response)) q e h =
  q e (log (NetFetch req) h).
Proof.
  intros Hnet. unfold catch, then_ at 1, fetch. by rewrite Hnet.
Qed.

Lemma network_first_online req r e h :
  network e req = Some r ->
  network_first req e h =
  (Fulfilled (Some r),
   mkHost (after_refresh e req r (caches h))
          (trace h ++ mkEffect (NetFetch req) true :: refresh_effects req r)
          (skip_waiting h) (clients_claimed h)).
Proof.
  intros Hnet. unfold network_first. by apply fetch_refresh_online.
Qed.

Lemma network_first_offline req e h :
  network e req = None ->
  caches (network_first req e h).2 = caches h.
Proof.
  intros Hnet. unfold network_first. rewrite (fetch_refresh_offline req _ _ _ Hnet).
  unfold then_, caches_match_path, caches_match, resolve. cbn.
  by destruct (storage_match req (caches h)).
Qed.

Lemma swr_miss_online req r e h :
  storage_match req (caches h) = None ->
  network e req = Some r ->
  stale_while_revalidate req e h =
  (Fulfilled (Some r),
   mkHost (after_refresh e req r (caches h))
          (trace h ++ mkEffect (CachesMatch (url req)) true
                   :: mkEffect (NetFetch req) true :: refresh_effects req r)
          (skip_waiting h) (clients_claimed h)).
Proof.
  intros Hmiss Hnet.
  unfold stale_while_revalidate, then_ at 1, caches_match.
  cbn [caches log set_trace]. rewrite Hmiss.
  rewrite (fetch_refresh_online req r _ _ _ Hnet). same_run.
Qed.

Lemma swr_hit_online req c r e h :
  storage_match req (caches h) = Some c ->
  network e req = Some r ->
  stale_while_revalidate req e h =
  (Fulfilled (Some c),
   mkHost (after_refresh e req r (caches h))
          (trace h ++ mkEffect (CachesMatch (url req)) true
                   :: mkEffect (NetFetch req) false :: refresh_effects req r)
          (skip_waiting h) (clients_claimed h)).
Proof.
  intros Hhit Hnet.
  unfold stale_while_revalidate, then_ at 1, caches_match.
  cbn [caches log set_trace]. rewrite Hhit.
  unfold then_ at 1, detach.
  rewrite (fetch_refresh_online req r _ _ _ Hnet). same_run.
Qed.

Lemma swr_offline req e h :
  network e req = None ->
  stale_while_revalidate req e h =
  (Fulfilled (storage_match req (caches h)),
   mkHost (caches h)
          (trace h ++ [ mkEffect (CachesMatch (url req)) true;
                        mkEffect (NetFetch req)
                          (bool_decide (storage_match req (caches h) = None)) ])
          (skip_waiting h) (clients_claimed h)).
Proof.
  intros Hnet.
  unfold stale_while_revalidate, then_ at 1, caches_match.
  cbn [caches log set_trace].
  destruct (storage_match req (caches h)) as [c|].
  - unfold then_ at 1, detach.
    rewrite (fetch_refresh_offline req _ _ _ Hnet). same_run.
  - rewrite (fetch_refresh_offline req _ _ _ Hnet). same_run.
Qed.






(** ** Pass-through *)

(** C1: a request whose method is not GET leaves the fetch handler without a
    response and without any host operation: the handler declines
    ([PassThrough]) and the host state, cache storage and trace included, is
    exactly what it was. *)
Theorem non_get_passes_through req e h :
  method req <> "GET" ->
  on_fetch req e h = (PassThrough, h) /\
  delivery (on_fetch req e h).1 = FromNetwork.
Proof.
  intros Hm. unfold on_fetch.
  rewrite (method_eqb_not_GET _ Hm). by split.
Qed.

(** C7: a request whose path starts with /api/ is declined whatever its
    method: no response is supplied and the host state, cache storage and
    trace included, is untouched. *)
Theorem api_passes_through req e h :
  String.prefix "/api/" (pathname (url req)) = true ->
  on_fetch req e h = (PassThrough, h) /\
  delivery (on_fetch req e h).1 = FromNetwork.
Proof.
  intros Hapi. unfold on_fetch, is_api. rewrite Hapi.
  by destruct (String.eqb (method req) "GET").
Qed.

(** ** The two strategies, on the requests that reach them *)

Section Intercepted.
Variables (req : Request) (e : Env) (h : Host).
Hypothesis Hget : method req = "GET".
Hypothesis Hnot_api : is_api req = false.

Lemma on_fetch_navigate :
  mode req = "navigate" ->
  on_fetch req e h = respondWith (network_first req) e h.
Proof.
  intros Hmode. unfold on_fetch.
  by rewrite (method_eqb_GET _ Hget), Hnot_api, Hmode.
Qed.

Lemma on_fetch_asset :
  mode req <> "navigate" ->
  on_fetch req e h = respondWith (stale_while_revalidate req) e h.
Proof.
  intros Hmode. unfold on_fetch.
  rewrite (method_eqb_GET _ Hget), Hnot_api.
  apply String.eqb_neq in Hmode. by rewrite Hmode.
Qed.

(** C3: offline navigation.  With the network down the handler answers
    with the cached response for the request itself when there is one,
    else with the cached response for '/', and when both are missing the
    response promise fulfils with nothing, which fails the request.  The
    cache storage is not modified. *)
Theorem navigate_offline_fallback :
  mode req = "navigate" ->
  network e req = None ->
  let root := request_of_path e "/" in
  let out := (on_fetch req e h).1 in
  (forall r, storage_match req (caches h) = Some r ->
     out = RespondWith (Fulfilled (Some r))) /\
  (forall r, storage_match req (caches h) = None ->
     storage_match root (caches h) = Some r ->
     out = RespondWith (Fulfilled (Some r))) /\
  (storage_match req (caches h) = None ->
   storage_match root (caches h) = None ->
     out = RespondWith (Fulfilled None) /\ delivery out = RequestFails) /\
  caches (on_fetch req e h).2 = caches h.
Proof.
  intros Hmode Hnet root out. subst out root.
  rewrite (on_fetch_navigate Hmode).
  unfold respondWith, network_first, catch, then_, fetch. rewrite Hnet.
  unfold caches_match_path, caches_match, resolve.
  cbn [caches log set_trace].
  destruct (storage_match req (caches h)) as [r|] eqn:Hreq; cbn.
  - repeat split; intros; congruence.
  - destruct (storage_match (request_of_path e "/") (caches h)) as [r|];
      repeat split; intros; congruence.
Qed.

(** C8: a static-asset request that misses the cache while the network is
    down.  The response promise is fulfilled, not rejected, and carries no
    response; the storage is left alone. *)
Theorem asset_miss_offline_is_absent :
  mode req <> "navigate" ->
  storage_match req (caches h) = None ->
  network e req = None ->
  (on_fetch req e h).1 = RespondWith (Fulfilled None) /\
  caches (on_fetch req e h).2 = caches h.
Proof.
  intros Hmode Hmiss Hnet.
  rewrite (on_fetch_asset Hmode).
  unfold respondWith, stale_while_revalidate, then_, caches_match.
  cbn [caches log set_trace]. rewrite Hmiss.
  unfold catch, then_, fetch. rewrite Hnet. by cbn.
Qed.

(** Both strategies leave the same storage behind. *)
Lemma on_fetch_online_caches r :
  network e req = Some r ->
  caches (on_fetch req e h).2 = after_refresh e req r (caches h).
Proof.
  intros Hnet. unfold on_fetch.
  rewrite (method_eqb_GET _ Hget), Hnot_api. cbn [negb].
  unfold respondWith.
  destruct (String.eqb (mode req) "navigate").
  - by rewrite (network_first_online _ _ _ _ Hnet).
  - destruct (storage_match req (caches h)) as [c|] eqn:Hc.
    + by rewrite (swr_hit_online _ _ _ _ _ Hc Hnet).
    + by rewrite (swr_miss_online _ _ _ _ Hc Hnet).
Qed.

Lemma on_fetch_offline_caches :
  network e req = None ->
  caches (on_fetch req e h).2 = caches h.
Proof.
  intros Hnet. unfold on_fetch.
  rewrite (method_eqb_GET _ Hget), Hnot_api. cbn [negb].
  unfold respondWith.
  destruct (String.eqb (mode req) "navigate").
  - pose proof (network_first_offline req e h Hnet) as H.
    by destruct (network_first req e h).
  - by rewrite (swr_offline _ _ _ Hnet).
Qed.



(** C9, what the code does instead: whenever the network answers, the
    handler performs the cache write, but as an operation the event does
    not wait for; no cache write of a fetch handling is ever awaited. *)
Theorem fetch_cache_write_is_detached r :
  network e req = Some r ->
  exists new,
    trace (on_fetch req e h).2 = (trace h ++ new)%list /\
    In (mkEffect (CachePut CACHE_NAME req r) false) new /\
    (forall x, In x new -> awaited x = true ->
       forall n q p, op x <> CachePut n q p).
Proof.
  intros Hnet. unfold on_fetch.
  rewrite (method_eqb_GET _ Hget), Hnot_api. cbn [negb].
  unfold respondWith.
  destruct (String.eqb (mode req) "navigate").
  - rewrite (network_first_online _ _ _ _ Hnet). cbn [snd trace].
    eexists. split; [reflexivity|]. split; [cbn; tauto|].
    intros x Hx Haw n q p. cbn in Hx.
    destruct Hx as [<-|[<-|[<-|[]]]]; cbn in *; congruence.
  - destruct (storage_match req (caches h)) as [c|] eqn:Hc.
    + rewrite (swr_hit_online _ _ _ _ _ Hc Hnet). cbn [snd trace].
      eexists. split; [reflexivity|]. split; [cbn; tauto|].
      intros x Hx Haw n q p. cbn in Hx.
      destruct Hx as [<-|[<-|[<-|[<-|[]]]]]; cbn in *; congruence.
    + rewrite (swr_miss_online _ _ _ _ Hc Hnet). cbn [snd trace].
      eexists. split; [reflexivity|]. split; [cbn; tauto|].
      intros x Hx Haw n q p. cbn in Hx.
      destruct Hx as [<-|[<-|[<-|[<-|[]]]]]; cbn in *; congruence.
Qed.

End Intercepted.

(** ** Install and activate, as storage transformers *)

Lemma caches_fold_log (rs : list Request) h :
  caches (fold_left (fun acc r => log (NetFetch r) acc) rs h) = caches h.
Proof. revert h. induction rs as [|r rs IH]; intros h; [done|]. cbn. by rewrite IH. Qed.

Lemma on_install_caches e h :
  caches (on_install e h).2 =
  match fetch_batch e (manifest_requests e) with
  | Some es => update_cache CACHE_NAME (insert_all es)
                 (ensure_cache CACHE_NAME (caches h))
  | None => ensure_cache CACHE_NAME (caches h)
  end.
Proof.
  unfold on_install, then_, caches_open, catch, cache_addAll, console_warn.
  fold (manifest_requests e).
  destruct (fetch_batch e (manifest_requests e)); cbn;
    by rewrite ?caches_fold_log.
Qed.

Lemma on_install_succeeds e h : (on_install e h).1 = Fulfilled tt.
Proof.
  unfold on_install, then_, caches_open, catch, cache_addAll, console_warn.
  by destruct (fetch_batch e (map (request_of_path e) STATIC_ASSETS)).
Qed.

Lemma delete_all_caches ks e h :
  caches (promise_all (map caches_delete ks) e h).2 =
  List.filter (fun p => negb (existsb (String.eqb p.1) ks)) (caches h).
Proof.
  revert h. induction ks as [|k ks IH]; intros h; cbn.
  - induction (caches h) as [|p cs IHcs]; [done|]. cbn. by rewrite <- IHcs.
  - specialize (IH (set_caches (remove_cache k (caches (log (CachesDelete k) h)))
                      (log (CachesDelete k) h))).
    destruct (promise_all _ _ _) as [[l|] h2]; cbn in *; rewrite IH;
      unfold remove_cache; clear;
      (induction (caches h) as [|p cs IHcs]; [done|]; cbn;
       destruct (String.eqb p.1 k); cbn; [done|];
       destruct (existsb _ ks); cbn; by rewrite IHcs).
Qed.

Lemma on_activate_caches e h :
  caches (on_activate e h).2 =
  List.filter (fun p => String.eqb p.1 CACHE_NAME) (caches h).
Proof.
  unfold on_activate, then_, caches_keys.
  cbn [caches log set_trace].
  pose proof (delete_all_caches
    (List.filter (fun k => negb (String.eqb k CACHE_NAME)) (map fst (caches h)))
    e (log CachesKeys h)) as H.
  destruct (promise_all _ _ _) as [r h1]. cbn in *. rewrite H.
  apply filter_ext_in. intros [n c] Hin. cbn.
  destruct (String.eqb_spec n CACHE_NAME) as [->|Hne].
  - apply negb_true_iff, not_true_is_false. intros Hex.
    apply existsb_exists in Hex as (k & Hk & Heq).
    apply filter_In in Hk as [_ Hk]. apply String.eqb_eq in Heq. subst k.
    by rewrite String.eqb_refl in Hk.
  - apply negb_false_iff, existsb_exists. exists n. split.
    + apply filter_In. split.
      * apply in_map_iff. by exists (n, c).
      * apply negb_true_iff. by apply String.eqb_neq.
    + apply String.eqb_refl.
Qed.

Lemma get_cache_filter_name name keep cs :
  get_cache name (List.filter (fun p => String.eqb p.1 keep) cs) =
  if String.eqb name keep then get_cache name cs else None.
Proof.
  induction cs as [|[n c] cs IH]; cbn.
  - by destruct (String.eqb name keep).
  - destruct (String.eqb_spec n keep) as [->|Hn]; cbn.
    + destruct (String.eqb_spec keep name) as [->|Hk].
      * by rewrite String.eqb_refl.
      * rewrite IH. destruct (String.eqb_spec name keep); congruence.
    + rewrite IH. destruct (String.eqb_spec name keep) as [->|]; [|done].
      by destruct (String.eqb_spec n keep).
Qed.

Lemma get_cache_listed name cs :
  In name (map fst cs) -> get_cache name cs <> None.
Proof.
  induction cs as [|[n c] cs IH]; cbn; [done|].
  intros [->|Hin]; [by rewrite String.eqb_refl|].
  destruct (String.eqb n name); [done|by apply IH].
Qed.

(** ** Activation *)

(** C6: after activation a cache that existed is gone exactly when its name
    differs from the current cache name, the surviving cache is unchanged,
    and of the two generations celesys-ai-v1 and celesys-ai-v2 only
    celesys-ai-v2 remains. *)
Theorem activate_cleanup e h :
  let h' := (on_activate e h).2 in
  (forall name, In name (map fst (caches h)) ->
     (get_cache name (caches h') = None <-> name <> CACHE_NAME)) /\
  named_cache h' = named_cache h /\
  map fst (caches (on_activate e two_generations).2) = ["celesys-ai-v2"].
Proof.
  intros h'. subst h'. unfold named_cache.
  rewrite !on_activate_caches. split; [|split].
  - intros name Hin. rewrite get_cache_filter_name.
    apply get_cache_listed in Hin.
    destruct (String.eqb_spec name CACHE_NAME); split; congruence.
  - rewrite get_cache_filter_name. by rewrite String.eqb_refl.
  - reflexivity.
Qed.

(** ** Install *)

Lemma insert_all_lookup_other es (c : Cache) k :
  ~ In k (map (fun p => url p.1) es) ->
  insert_all es c !! k = c !! k.
Proof.
  unfold insert_all. revert c.
  induction es as [|p es IH]; intros c Hk; [done|]. cbn in *.
  rewrite IH by tauto. apply lookup_insert_ne. tauto.
Qed.

Lemma insert_all_lookup es (c : Cache) rq r :
  NoDup (map (fun p => url p.1) es) ->
  In (rq, r) es ->
  insert_all es c !! url rq = Some (rq, r).
Proof.
  revert c. induction es as [|p es IH]; intros c Hnd Hin; [done|].
  apply NoDup_cons in Hnd as [Hp Hnd]. destruct Hin as [->|Hin].
  - change (insert_all ((rq, r) :: es) c)
      with (insert_all es (<[url rq := (rq, r)]> c)).
    rewrite insert_all_lookup_other.
    + apply lookup_insert_eq.
    + by rewrite <- list_elem_of_In.
  - change (insert_all (p :: es) c) with (insert_all es (<[url p.1 := p]> c)).
    by apply IH.
Qed.

Lemma fetch_batch_fst e rs es :
  fetch_batch e rs = Some es -> map fst es = rs.
Proof.
  revert es. induction rs as [|rq rs IH]; intros es; cbn.
  - by intros [= <-].
  - destruct (network e rq) as [r|]; [|done].
    destruct (addAll_accepts e rq r); [|done].
    destruct (fetch_batch e rs) as [es'|]; [|done].
    intros [= <-]. cbn. by rewrite (IH es').
Qed.

Lemma fetch_batch_all e rs :
  (forall rq, In rq rs ->
     exists r, network e rq = Some r /\ addAll_accepts e rq r = true) ->
  exists es, fetch_batch e rs = Some es /\
    forall rq, In rq rs -> exists r, network e rq = Some r /\ In (rq, r) es.
Proof.
  induction rs as [|rq rs IH]; intros Hall; cbn.
  - by exists [].
  - destruct (Hall rq) as (r & Hr & Hacc); [by left|].
    destruct IH as (es & Hes & Hin); [intros; apply Hall; by right|].
    rewrite Hr, Hacc, Hes. cbn. eexists. split; [reflexivity|].
    intros rq' [<-|Hrq'].
    + exists r. split; [done|by left].
    + destruct (Hin rq' Hrq') as (r' & ? & ?). exists r'. split; [done|by right].
Qed.

Lemma fetch_batch_one_bad e rs rq :
  In rq rs ->
  (network e rq = None \/
   exists r, network e rq = Some r /\ addAll_accepts e rq r = false) ->
  fetch_batch e rs = None.
Proof.
  induction rs as [|rq' rs IH]; intros Hin Hbad; [done|]. cbn.
  destruct Hin as [->|Hin].
  - destruct Hbad as [->|(r & -> & ->)]; done.
  - rewrite (IH Hin Hbad).
    destruct (network e rq') as [r|]; [|done].
    by destruct (addAll_accepts e rq' r).
Qed.

Lemma manifest_urls_distinct e :
  NoDup (map url (manifest_requests e)).
Proof.
  unfold manifest_requests, STATIC_ASSETS. cbn.
  repeat (apply NoDup_cons_2;
          [rewrite list_elem_of_In; cbn; intuition congruence|]).
  apply NoDup_nil_2.
Qed.

(** C5, what the code does instead: one asset that fails to fetch, or
    whose response [cache.addAll] does not accept, is enough for the install
    to store nothing at all.  The named cache then holds exactly what it held
    before the install, so a manifest asset whose own fetch succeeded is not
    retrievable unless it already was. *)
Theorem install_partial_failure_stores_nothing e h :
  (exists p, In p STATIC_ASSETS /\
     (network e (request_of_path e p) = None \/
      exists r, network e (request_of_path e p) = Some r /\
                addAll_accepts e (request_of_path e p) r = false)) ->
  default ∅ (named_cache (on_install e h).2) = default ∅ (named_cache h).
Proof.
  intros (p & Hp & Hbad). unfold named_cache. rewrite on_install_caches.
  rewrite (fetch_batch_one_bad e (manifest_requests e) (request_of_path e p)).
  - by rewrite get_cache_ensure.
  - unfold manifest_requests. by apply in_map.
  - done.
Qed.

(** ** The invariant of the named cache *)

Lemma storage_ok_ensure cs : storage_ok cs -> storage_ok (ensure_cache CACHE_NAME cs).
Proof.
  intros Hok c. unfold ensure_cache.
  destruct (has_cache CACHE_NAME cs); [apply Hok|].
  intros [Hin|[[= <-]|[]]]%in_app_or; [by apply Hok|].
  apply map_Forall_empty.
Qed.

Lemma storage_ok_update f cs :
  (forall c, map_Forall entry_ok c -> map_Forall entry_ok (f c)) ->
  storage_ok cs -> storage_ok (update_cache CACHE_NAME f cs).
Proof.
  intros Hf Hok c Hin. unfold update_cache in Hin.
  apply in_map_iff in Hin as ([n c0] & Heq & Hin). cbn in Heq.
  destruct (String.eqb_spec n CACHE_NAME) as [->|Hn].
  - injection Heq as <-. apply Hf. by apply Hok.
  - injection Heq as -> ->. by apply Hok.
Qed.

Lemma storage_ok_filter keep cs :
  storage_ok cs -> storage_ok (List.filter keep cs).
Proof. intros Hok c Hin. apply filter_In in Hin as [Hin _]. by apply Hok. Qed.

Lemma insert_all_ok es (c : Cache) :
  Forall (fun p => entry_ok (url p.1) p) es ->
  map_Forall entry_ok c -> map_Forall entry_ok (insert_all es c).
Proof.
  unfold insert_all. revert c.
  induction es as [|p es IH]; intros c Hes Hc; [done|].
  apply Forall_cons in Hes as [Hp Hes]. cbn.
  apply IH; [done|]. by apply map_Forall_insert_2.
Qed.

Lemma manifest_requests_ok e rq :
  In rq (manifest_requests e) -> method rq = "GET" /\ is_api rq = false.
Proof.
  unfold manifest_requests, STATIC_ASSETS. cbn.
  intros [<-|[<-|[<-|[<-|[]]]]]; by split.
Qed.

Lemma after_refresh_ok e req r cs :
  method req = "GET" -> is_api req = false ->
  storage_ok cs -> storage_ok (after_refresh e req r cs).
Proof.
  intros Hm Hapi Hok. unfold after_refresh.
  destruct (put_accepts e req r); [|by apply storage_ok_ensure].
  apply storage_ok_update; [|by apply storage_ok_ensure].
  intros c Hc. by apply map_Forall_insert_2.
Qed.

Lemma on_fetch_caches_cases req e h :
  caches (on_fetch req e h).2 = caches h \/
  (method req = "GET" /\ is_api req = false /\
   exists r, caches (on_fetch req e h).2 = after_refresh e req r (caches h)).
Proof.
  destruct (String.eqb_spec (method req) "GET") as [Hm|Hm].
  - destruct (is_api req) eqn:Hapi.
    + left. unfold on_fetch. by rewrite Hapi, (method_eqb_GET _ Hm).
    + destruct (network e req) as [r|] eqn:Hnet.
      * right. repeat split; [done..|]. exists r.
        by apply on_fetch_online_caches.
      * left. by apply on_fetch_offline_caches.
  - left. unfold on_fetch. by rewrite (method_eqb_not_GET _ Hm).
Qed.

Lemma install_preserves_ok e h :
  named_cache_ok h -> named_cache_ok (on_install e h).2.
Proof.
  unfold named_cache_ok. intros Hok. rewrite on_install_caches.
  destruct (fetch_batch e (manifest_requests e)) as [es|] eqn:Hes;
    [|by apply storage_ok_ensure].
  apply storage_ok_update; [|by apply storage_ok_ensure].
  intros c Hc. apply insert_all_ok; [|done].
  apply List.Forall_forall. intros [rq r] Hin.
  assert (In rq (manifest_requests e)) as Hrq.
  { rewrite <- (fetch_batch_fst _ _ _ Hes). apply in_map_iff. by exists (rq, r). }
  apply manifest_requests_ok in Hrq as [? ?]. by repeat split.
Qed.

Lemma activate_preserves_ok e h :
  named_cache_ok h -> named_cache_ok (on_activate e h).2.
Proof.
  unfold named_cache_ok. rewrite on_activate_caches. apply storage_ok_filter.
Qed.

Lemma fetch_preserves_ok req e h :
  named_cache_ok h -> named_cache_ok (on_fetch req e h).2.
Proof.
  unfold named_cache_ok. intros Hok.
  destruct (on_fetch_caches_cases req e h) as [->|(Hm & Hapi & r & ->)];
    [done|by apply after_refresh_ok].
Qed.

Lemma step_preserves_ok e ev h :
  named_cache_ok h -> named_cache_ok (step e ev h).
Proof.
  destruct ev; cbn;
    [apply install_preserves_ok|apply activate_preserves_ok|apply fetch_preserves_ok].
Qed.

Lemma initial_host_ok : named_cache_ok initial_host.
Proof. by intros c []. Qed.

(** C2: the install, activate and fetch handlers preserve the invariant of
    the named cache.  Starting from a host where it holds (a host the worker
    never ran on, in particular), in every state the handlers can bring the
    host to each entry of the named cache is keyed by the URL of a GET
    request whose path does not start with /api/. *)
Theorem named_cache_invariant o h0 h :
  named_cache_ok h0 ->
  reachable o h0 h ->
  forall c k rq rs,
    In (CACHE_NAME, c) (caches h) ->
    c !! k = Some (rq, rs) ->
    url rq = k /\ method rq = "GET" /\
    String.prefix "/api/" (pathname (url rq)) = false.
Proof.
  intros Hstart Hreach.
  assert (named_cache_ok h) as Hok.
  { induction Hreach as [|net acc ev h _ IH]; [done|].
    by apply step_preserves_ok. }
  intros c k rq rs Hin Hl. exact (Hok c Hin k (rq, rs) Hl).
Qed.

(** ** The statements at sample inputs *)

Lemma non_get_passes_through_witness :
  on_fetch report_post (mkEnv sample_origin net_up accept_all) installed
    = (PassThrough, installed).
Proof.
  apply (non_get_passes_through report_post (mkEnv sample_origin net_up accept_all) installed).
  discriminate.
Defined.

Lemma api_passes_through_witness :
  on_fetch api_get (mkEnv sample_origin net_up accept_all) installed
    = (PassThrough, installed).
Proof.
  apply (api_passes_through api_get (mkEnv sample_origin net_up accept_all) installed).
  reflexivity.
Defined.

Lemma navigate_offline_fallback_witness :
  (on_fetch (navigation "/dashboard") (mkEnv sample_origin net_down accept_all) installed).1
    = RespondWith (Fulfilled (Some (mkResponse 200 "/"))).
Proof.
  apply (navigate_offline_fallback (navigation "/dashboard")
           (mkEnv sample_origin net_down accept_all) installed);
    reflexivity.
Defined.

Lemma asset_miss_offline_witness :
  (on_fetch (subresource "/styles/app.css") (mkEnv sample_origin net_down accept_all)
     installed).1 = RespondWith (Fulfilled None).
Proof.
  apply (asset_miss_offline_is_absent (subresource "/styles/app.css")
           (mkEnv sample_origin net_down accept_all) installed);
    [reflexivity | reflexivity | discriminate | reflexivity | reflexivity].
Defined.

Lemma fetch_cache_write_is_detached_witness :
  exists new,
    trace (on_fetch (navigation "/dashboard") (mkEnv sample_origin net_up accept_all)
             initial_host).2 = (trace initial_host ++ new)%list /\
    In (mkEffect (CachePut CACHE_NAME (navigation "/dashboard")
                    (mkResponse 200 "/dashboard")) false) new /\
    (forall x, In x new -> awaited x = true ->
       forall n q p, op x <> CachePut n q p).
Proof.
  apply (fetch_cache_write_is_detached (navigation "/dashboard")
           (mkEnv sample_origin net_up accept_all) initial_host);
    reflexivity.
Defined.

(** The failing input of C9, run: a navigation to /dashboard with the
    network up.  The response promise settles with the fresh response; the
    cache open and the cache write are carried out unawaited. *)
Example navigation_write_outlives_event :
  on_fetch (navigation "/dashboard") (mkEnv sample_origin net_up accept_all) initial_host =
  (RespondWith (Fulfilled (Some (mkResponse 200 "/dashboard"))),
   mkHost
     [ (CACHE_NAME,
        {[ url (navigation "/dashboard") :=
             (navigation "/dashboard", mkResponse 200 "/dashboard") ]}) ]
     [ mkEffect (NetFetch (navigation "/dashboard")) true;
       mkEffect (CachesOpen CACHE_NAME) false;
       mkEffect (CachePut CACHE_NAME (navigation "/dashboard")
                   (mkResponse 200 "/dashboard")) false ]
     false false).
Proof. reflexivity. Qed.

Lemma named_cache_invariant_witness :
  let rq := navigation "/dashboard" in
  let rs := mkResponse 200 "/dashboard" in
  let h := step (mkEnv sample_origin net_up accept_all) (FetchEvent rq) initial_host in
  reachable sample_origin initial_host h /\
  In (CACHE_NAME, {[ url rq := (rq, rs) ]}) (caches h) /\
  ({[ url rq := (rq, rs) ]} : Cache) !! url rq = Some (rq, rs) /\
  (url rq = url rq /\ method rq = "GET" /\
   String.prefix "/api/" (pathname (url rq)) = false).
Proof.
  intros rq rs h.
  assert (reachable sample_origin initial_host h) as Hreach.
  { apply reachable_step, reachable_start. }
  assert (In (CACHE_NAME, {[ url rq := (rq, rs) ]}) (caches h)) as Hin.
  { left. reflexivity. }
  assert (({[ url rq := (rq, rs) ]} : Cache) !! url rq = Some (rq, rs)) as Hl.
  { apply lookup_singleton_eq. }
  exact (conj Hreach (conj Hin (conj Hl
           (named_cache_invariant sample_origin initial_host h
              initial_host_ok Hreach _ _ rq rs Hin Hl)))).
Defined.

Lemma activate_cleanup_witness :
  get_cache "celesys-ai-v1"
    (caches (on_activate (mkEnv sample_origin net_up accept_all) two_generations).2) = None.
Proof.
  apply (activate_cleanup (mkEnv sample_origin net_up accept_all) two_generations).
  - cbn. tauto.
  - discriminate.
Defined.



Lemma install_partial_failure_witness :
  network (mkEnv sample_origin net_without_manifest accept_all)
    (request_of_path (mkEnv sample_origin net_without_manifest accept_all) "/")
    = Some (mkResponse 200 "/") /\
  default ∅ (named_cache
               (on_install (mkEnv sample_origin net_without_manifest accept_all)
                  initial_host).2)
    = default ∅ (named_cache initial_host).
Proof.
  split; [reflexivity|].
  apply (install_partial_failure_stores_nothing
           (mkEnv sample_origin net_without_manifest accept_all) initial_host).
  exists "/manifest.json". split; [cbn; tauto|by left].
Defined.

(** ** Where the statements of the specification stop short *)



(** * Further properties of the handlers *)

(** ** What the fetch handler answers *)

Lemma network_first_offline_answer req e h :
  network e req = None ->
  (network_first req e h).1 =
  Fulfilled (match storage_match req (caches h) with
             | Some x => Some x
             | None => storage_match (request_of_path e "/") (caches h)
             end).
Proof.
  intros Hnet. unfold network_first.
  rewrite (fetch_refresh_offline req _ _ _ Hnet).
  unfold then_, caches_match_path, caches_match, resolve. cbn.
  by destruct (storage_match req (caches h)).
Qed.

(** The answer of the handler on the requests it intercepts, in closed
    form. *)
Lemma on_fetch_answer req e h :
  method req = "GET" -> is_api req = false ->
  (on_fetch req e h).1 =
  RespondWith (Fulfilled
    (if String.eqb (mode req) "navigate" then
       match network e req with
       | Some r => Some r
       | None =>
           match storage_match req (caches h) with
           | Some x => Some x
           | None => storage_match (request_of_path e "/") (caches h)
           end
       end
     else
       match storage_match req (caches h) with
       | Some c => Some c
       | None => network e req
       end)).
Proof.
  intros Hget Hapi. unfold on_fetch.
  rewrite (method_eqb_GET _ Hget), Hapi. cbn [negb].
  unfold respondWith.
  destruct (String.eqb (mode req) "navigate").
  - destruct (network e req) as [r|] eqn:Hnet.
    + by rewrite (network_first_online _ _ _ _ Hnet).
    + pose proof (network_first_offline_answer req e h Hnet) as H.
      destruct (network_first req e h) as [s h']. cbn in H. by rewrite H.
  - destruct (network e req) as [r|] eqn:Hnet.
    + destruct (storage_match req (caches h)) as [c|] eqn:Hc.
      * by rewrite (swr_hit_online _ _ _ _ _ Hc Hnet).
      * by rewrite (swr_miss_online _ _ _ _ Hc Hnet).
    + rewrite (swr_offline _ _ _ Hnet). cbn.
      by destruct (storage_match req (caches h)).
Qed.

Lemma on_fetch_declined req e h :
  method req <> "GET" \/ is_api req = true ->
  on_fetch req e h = (PassThrough, h).
Proof.
  intros [Hm|Hapi]; unfold on_fetch.
  - by rewrite (method_eqb_not_GET _ Hm).
  - rewrite Hapi. by destruct (String.eqb (method req) "GET").
Qed.

Lemma intercepted_or_declined req :
  (method req = "GET" /\ is_api req = false) \/
  (method req <> "GET" \/ is_api req = true).
Proof.
  destruct (String.eqb_spec (method req) "GET"); [|by right; left].
  destruct (is_api req); [by right; right|by left].
Qed.

(** The handler declines a request exactly when its method is not GET or
    its path starts with /api/; every other request gets a response promise
    (sw.js lines 35, 40, 44, 57). *)
Theorem fetch_intercepts_iff req e h :
  (on_fetch req e h).1 = PassThrough <->
  (method req <> "GET" \/ is_api req = true).
Proof.
  split.
  - intros Hout.
    destruct (intercepted_or_declined req) as [[Hget Hapi]|Hd]; [|done].
    by rewrite (on_fetch_answer _ _ _ Hget Hapi) in Hout.
  - intros Hd. by rewrite (on_fetch_declined _ _ _ Hd).
Qed.

(** The response promise is fulfilled with no response in one situation
    only: the request is an intercepted one, the network is down, the cache
    lookup for it comes back empty and, for a navigation, so does the lookup
    for '/' (sw.js lines 51 and 63-64). *)
Theorem fetch_answers_nothing_iff req e h :
  (on_fetch req e h).1 = RespondWith (Fulfilled None) <->
  (method req = "GET" /\ is_api req = false /\
   network e req = None /\
   storage_match req (caches h) = None /\
   (mode req = "navigate" ->
    storage_match (request_of_path e "/") (caches h) = None)).
Proof.
  destruct (intercepted_or_declined req) as [[Hget Hapi]|Hd].
  - rewrite (on_fetch_answer _ _ _ Hget Hapi).
    destruct (String.eqb_spec (mode req) "navigate") as [Hmode|Hmode];
      destruct (network e req) as [r|];
      destruct (storage_match req (caches h)) as [c|]; cbn;
      try (split; [done|intros (_ & _ & ? & ? & _); done]).
    destruct (storage_match (request_of_path e "/") (caches h)) as [x|] eqn:Hroot.
    + split; [done|]. intros (_ & _ & _ & _ & Hr). by specialize (Hr Hmode).
    + by repeat split.
  - rewrite (on_fetch_declined _ _ _ Hd). cbn. split; [done|].
    intros (Hget & Hapi & _). destruct Hd; congruence.
Qed.

(** Network first: while the network answers, a navigation is served the
    network response, whatever its status and whatever the caches hold for
    the page (sw.js lines 45-50). *)
Theorem navigate_online_serves_network req e h r :
  method req = "GET" -> is_api req = false ->
  mode req = "navigate" ->
  network e req = Some r ->
  (on_fetch req e h).1 = RespondWith (Fulfilled (Some r)).
Proof.
  intros Hget Hapi Hmode Hnet.
  by rewrite (on_fetch_answer _ _ _ Hget Hapi), Hmode, Hnet.
Qed.

Lemma navigate_online_serves_network_witness :
  storage_match (navigation "/") (caches installed)
    = Some (mkResponse 200 "/") /\
  (on_fetch (navigation "/") (mkEnv sample_origin (net_status 500) accept_all) installed).1
    = RespondWith (Fulfilled (Some (mkResponse 500 "fresh"))).
Proof.
  split; [reflexivity|].
  apply (navigate_online_serves_network (navigation "/")
           (mkEnv sample_origin (net_status 500) accept_all) installed);
    reflexivity.
Defined.

(** ** What the handlers leave alone *)

Lemma get_cache_ensure_ne name n cs :
  name <> n -> get_cache name (ensure_cache n cs) = get_cache name cs.
Proof.
  intros Hne. unfold ensure_cache. destruct (has_cache n cs); [done|].
  rewrite get_cache_app. destruct (get_cache name cs); [done|]. cbn.
  destruct (String.eqb_spec n name); congruence.
Qed.

Lemma get_cache_update_ne name n f cs :
  name <> n -> get_cache name (update_cache n f cs) = get_cache name cs.
Proof.
  intros Hne. unfold update_cache.
  induction cs as [|[m c] cs IH]; [done|]. cbn.
  destruct (String.eqb_spec m n) as [->|Hm]; cbn.
  - destruct (String.eqb_spec n name); [congruence|apply IH].
  - by rewrite IH.
Qed.




(** An install changes nothing outside the manifest: caches under other
    names are what they were, and so is every entry of the named cache whose
    URL is not one of the four manifest URLs (sw.js lines 13-14). *)
Theorem install_touches_only_manifest e h :
  let h' := (on_install e h).2 in
  (forall name, name <> CACHE_NAME ->
     get_cache name (caches h') = get_cache name (caches h)) /\
  (forall k, ~ In k (map url (manifest_requests e)) ->
     default ∅ (named_cache h') !! k = default ∅ (named_cache h) !! k).
Proof.
  intros h'. subst h'. unfold named_cache. rewrite on_install_caches.
  destruct (fetch_batch e (manifest_requests e)) as [es|] eqn:Hes.
  - split.
    + intros name Hne. by rewrite get_cache_update_ne, get_cache_ensure_ne.
    + intros k Hk. rewrite get_cache_update, get_cache_ensure. cbn.
      apply insert_all_lookup_other.
      replace (map (fun p : Request * Response => url p.1) es)
        with (map url (map fst es)) by (by rewrite map_map).
      by rewrite (fetch_batch_fst _ _ _ Hes).
  - split.
    + intros name Hne. by rewrite get_cache_ensure_ne.
    + intros k _. by rewrite get_cache_ensure.
Qed.

(** ** Repeating an event *)

Lemma filter_twice {A} (f : A -> bool) (l : list A) :
  List.filter f (List.filter f l) = List.filter f l.
Proof.
  induction l as [|x l IH]; [done|]. cbn.
  destruct (f x) eqn:Hx; cbn; [|done]. by rewrite Hx, IH.
Qed.

(** After activation every cache left bears the current name, and a second
    activation changes nothing in the storage (sw.js lines 25-26). *)
Theorem activate_settles e e' h :
  let h' := (on_activate e h).2 in
  only_current (caches h') /\
  caches (on_activate e' h').2 = caches h'.
Proof.
  intros h'. subst h'. rewrite !on_activate_caches. split.
  - intros n c Hin. apply filter_In in Hin as [_ Hn].
    by apply String.eqb_eq in Hn.
  - apply filter_twice.
Qed.








(** ** One event after another *)

Lemma storage_match_shadowed e req r n c cs old :
  n <> CACHE_NAME ->
  cache_lookup req c = Some old ->
  storage_match req (after_refresh e req r ((n, c) :: cs)) = Some old.
Proof.
  intros Hn Hold. apply String.eqb_neq in Hn.
  unfold after_refresh, ensure_cache, update_cache.
  cbn -[cache_lookup]. rewrite Hn. cbn -[cache_lookup].
  destruct (put_accepts e req r), (existsb _ cs);
    cbn -[cache_lookup]; by rewrite ?Hn, Hold.
Qed.

(** The lookups of the fetch handler go through every cache of the origin,
    oldest first, not through the named cache alone: while a cache created
    earlier under another name holds a response for the request, that
    response is the offline answer, also after a newer one was fetched and
    stored (sw.js lines 51 and 58 use caches.match). *)
Theorem older_cache_shadows_refresh req e e' h n c cs old r :
  caches h = (n, c) :: cs ->
  n <> CACHE_NAME ->
  cache_lookup req c = Some old ->
  method req = "GET" -> is_api req = false ->
  network e req = Some r ->
  network e' req = None ->
  (on_fetch req e' (on_fetch req e h).2).1 = RespondWith (Fulfilled (Some old)).
Proof.
  intros Hcs Hn Hold Hget Hapi Hnet Hdown.
  rewrite (on_fetch_answer _ _ _ Hget Hapi), Hdown.
  rewrite (on_fetch_online_caches _ _ _ Hget Hapi _ Hnet), Hcs.
  rewrite (storage_match_shadowed _ _ _ _ _ _ _ Hn Hold).
  by destruct (String.eqb (mode req) "navigate").
Qed.

Lemma older_cache_shadows_refresh_witness :
  (on_fetch (navigation "/dashboard") (mkEnv sample_origin net_down accept_all)
     (on_fetch (navigation "/dashboard") (mkEnv sample_origin net_up accept_all)
        with_old_generation).2).1
  = RespondWith (Fulfilled (Some (mkResponse 200 "old"))).
Proof.
  apply (older_cache_shadows_refresh (navigation "/dashboard")
           (mkEnv sample_origin net_up accept_all) (mkEnv sample_origin net_down accept_all)
           with_old_generation "celesys-ai-v1"
           {[ url (navigation "/dashboard") :=
                (navigation "/dashboard", mkResponse 200 "old") ]}
           [("celesys-ai-v2", ∅)] (mkResponse 200 "old")
           (mkResponse 200 "/dashboard"));
    [reflexivity | discriminate | | reflexivity | reflexivity
    | reflexivity | reflexivity].
  unfold cache_lookup. by rewrite lookup_singleton_eq.
Defined.

(** ** What install and activate ask of the host *)

Lemma trace_fold_log (rs : list Request) h :
  trace (fold_left (fun acc r => log (NetFetch r) acc) rs h) =
  (trace h ++ map (fun r => mkEffect (NetFetch r) true) rs)%list.
Proof.
  revert h. induction rs as [|r rs IH]; intros h; cbn.
  - by rewrite app_nil_r.
  - rewrite IH. cbn. by rewrite <- app_assoc.
Qed.

(** The cache work of install, all of it awaited by the event, is, in this
    order: one open of the named cache, one addAll, one fetch per manifest
    path, and a console warning exactly when the batch is refused.  The
    handler also asks the host to skip waiting and does not claim the
    clients (sw.js lines 12-19). *)
Theorem install_operations e h :
  trace (on_install e h).2 =
    (trace h ++
     mkEffect (CachesOpen CACHE_NAME) true ::
     mkEffect (CacheAddAll CACHE_NAME STATIC_ASSETS) true ::
     map (fun r => mkEffect (NetFetch r) true) (manifest_requests e) ++
     match fetch_batch e (manifest_requests e) with
     | Some _ => []
     | None => [mkEffect ConsoleWarn true]
     end)%list /\
  skip_waiting (on_install e h).2 = true /\
  clients_claimed (on_install e h).2 = clients_claimed h.
Proof.
  unfold on_install, then_, caches_open, catch, cache_addAll, console_warn.
  fold (manifest_requests e).
  destruct (fetch_batch e (manifest_requests e));
    cbn [fst snd trace skip_waiting clients_claimed skipWaiting set_caches
         set_trace log caches];
    rewrite trace_fold_log; cbn; rewrite <- ?app_assoc; cbn; by repeat split.
Qed.

Lemma delete_all_run ks e h :
  exists l,
    (promise_all (map caches_delete ks) e h).1 = Fulfilled l /\
    length l = length ks /\
    trace (promise_all (map caches_delete ks) e h).2 =
      (trace h ++ map (fun k => mkEffect (CachesDelete k) true) ks)%list /\
    skip_waiting (promise_all (map caches_delete ks) e h).2 = skip_waiting h.
Proof.
  revert h. induction ks as [|k ks IH]; intros h; cbn.
  - exists []. by rewrite app_nil_r.
  - destruct (IH (set_caches (remove_cache k (caches (log (CachesDelete k) h)))
                    (log (CachesDelete k) h))) as (l & Hr & Hlen & Htr & Hsk).
    destruct (promise_all _ _ _) as [s h2]. cbn in *. subst s.
    eexists. repeat split; cbn.
    + by rewrite Hlen.
    + rewrite Htr. by rewrite <- app_assoc.
    + done.
Qed.

(** The cache work of activate, all of it awaited by the event, is: one
    listing of the cache names and then, in listing order, one delete for
    each name that differs from the current one.  The handler also claims
    the open clients and does not ask to skip waiting
    (sw.js lines 24-29). *)
Theorem activate_operations e h :
  let stale :=
    List.filter (fun k => negb (String.eqb k CACHE_NAME)) (map fst (caches h)) in
  trace (on_activate e h).2 =
    (trace h ++ mkEffect CachesKeys true ::
     map (fun k => mkEffect (CachesDelete k) true) stale)%list /\
  clients_claimed (on_activate e h).2 = true /\
  skip_waiting (on_activate e h).2 = skip_waiting h.
Proof.
  intros stale. unfold on_activate, then_, caches_keys.
  cbn [caches log set_trace]. fold stale.
  destruct (delete_all_run stale e (log CachesKeys h)) as (l & Hr & Hlen & Htr & Hsk).
  destruct (promise_all _ _ _) as [s h1]. cbn in *. subst s.
  split; [|done].
  rewrite Htr. by rewrite <- app_assoc.
Qed.

(** ** What a cache hit waits for *)

(** On a stale-while-revalidate cache hit the response promise settles on
    the cache lookup alone: the lookup is the one awaited operation, while
    the network fetch (always started, for the event's request) and all that
    follows it run unawaited (sw.js lines 58-64, [cached || fetched]). *)
Theorem swr_hit_awaits_only_lookup req e h c :
  method req = "GET" -> is_api req = false ->
  mode req <> "navigate" ->
  storage_match req (caches h) = Some c ->
  exists rest,
    trace (on_fetch req e h).2 =
      (trace h ++ mkEffect (CachesMatch (url req)) true ::
                  mkEffect (NetFetch req) false :: rest)%list /\
    Forall (fun x => awaited x = false) rest.
Proof.
  intros Hget Hapi Hmode Hhit.
  rewrite (on_fetch_asset _ _ _ Hget Hapi Hmode). unfold respondWith.
  destruct (network e req) as [r|] eqn:Hnet.
  - rewrite (swr_hit_online _ _ _ _ _ Hhit Hnet). cbn [snd trace].
    exists (refresh_effects req r). split; [done|].
    by repeat apply List.Forall_cons.
  - rewrite (swr_offline _ _ _ Hnet), Hhit. cbn.
    exists []. by split.
Qed.

Lemma swr_hit_awaits_only_lookup_witness :
  exists rest,
    trace (on_fetch (subresource "/icons/icon-192.png")
             (mkEnv sample_origin net_up accept_all) installed).2 =
      (trace installed ++
       mkEffect (CachesMatch (url (subresource "/icons/icon-192.png"))) true ::
       mkEffect (NetFetch (subresource "/icons/icon-192.png")) false ::
       rest)%list /\
    Forall (fun x => awaited x = false) rest.
Proof.
  apply (swr_hit_awaits_only_lookup (subresource "/icons/icon-192.png")
           (mkEnv sample_origin net_up accept_all) installed
           (mkResponse 200 "/icons/icon-192.png"));
    [reflexivity | reflexivity | discriminate | reflexivity].
Defined.

(** ** What a complete install stores *)

(** When each of the four manifest assets is fetched with a response that
    [cache.addAll] accepts for it (status 200..299 except 206, and a pair
    the store accepts), each manifest path is in the named cache after the
    install, under its URL on the worker's origin and with the response
    that was fetched for it, whatever the cache held before
    (sw.js lines 13-14). *)
Theorem install_stores_manifest e h :
  (forall p, In p STATIC_ASSETS ->
     exists r, network e (request_of_path e p) = Some r /\
               addAll_accepts e (request_of_path e p) r = true) ->
  forall p, In p STATIC_ASSETS ->
    exists c r,
      named_cache (on_install e h).2 = Some c /\
      network e (request_of_path e p) = Some r /\
      c !! url (request_of_path e p) = Some (request_of_path e p, r).
Proof.
  intros Hall p Hp. unfold named_cache. rewrite on_install_caches.
  destruct (fetch_batch_all e (manifest_requests e)) as (es & Hes & Hin).
  { intros rq Hrq. apply in_map_iff in Hrq as (q & <- & Hq). by apply Hall. }
  rewrite Hes, get_cache_update, get_cache_ensure. cbn.
  destruct (Hin (request_of_path e p)) as (r & Hr & Hpr).
  { unfold manifest_requests. by apply in_map. }
  eexists _, r. split; [reflexivity|]. split; [done|].
  apply (insert_all_lookup es _ (request_of_path e p) r); [|done].
  replace (map (fun p0 : Request * Response => url p0.1) es)
    with (map url (map fst es)) by (by rewrite map_map).
  rewrite (fetch_batch_fst _ _ _ Hes). apply manifest_urls_distinct.
Qed.

Lemma install_stores_manifest_witness :
  exists c r,
    named_cache (on_install (mkEnv sample_origin net_up accept_all)
                   with_old_generation).2 = Some c /\
    network (mkEnv sample_origin net_up accept_all)
      (request_of_path (mkEnv sample_origin net_up accept_all)
         "/icons/icon-512.png") = Some r /\
    c !! url (request_of_path (mkEnv sample_origin net_up accept_all)
                "/icons/icon-512.png")
      = Some (request_of_path (mkEnv sample_origin net_up accept_all)
                "/icons/icon-512.png", r).
Proof.
  apply (install_stores_manifest (mkEnv sample_origin net_up accept_all)
           with_old_generation).
  - intros p _. eexists. split; reflexivity.
  - cbn. tauto.
Defined.
